(** * CaptionedVideo: caption pages and their frame intervals

    A shallow embedding of [src/CaptionedVideo/index.tsx].

    Numbers.  A JavaScript [number] is modelled as an exact rational ([Q]);
    the literal [Infinity], which the component passes to [Math.min], is the
    extra constructor of [number].  Rounding of binary64 arithmetic is not
    modelled there: those statements are about the exact value of the
    expressions the component writes.  Equality of computed numbers is
    [Qeq] ([==]), the numeric equality of JavaScript.

    Where rounding decides, the mapper is modelled a second time on the
    binary64 numbers themselves ([Binary64]), with the operations of IEEE 754
    that JavaScript uses. *)

From Stdlib Require Import QArith Qminmax Qround Lia Ascii.
From Stdlib Require Floats Uint63.
From stdpp Require Import base option list sorting strings.

Local Open Scope Q_scope.

(** ** Numbers *)

Inductive number : Type :=
| Finite (q : Q)
| Infinity.

(** [Math.min(a, b)] at the one call site of the component: the second
    argument is a finite sum, so the minimum is finite. *)
Definition Math_min (a : number) (b : Q) : Q :=
  match a with
  | Finite q => Qmin q b
  | Infinity => b
  end.

(** [x <= 0] and [x < y] as the tests the code branches on. *)
Definition Qleb (x y : Q) : bool := Qle_bool x y.
Definition Qltb (x y : Q) : bool := negb (Qle_bool y x).


(** ** Data model *)

Module Caption.
(** Modelled from the spec: the [Caption] type is declared in the package
    [@remotion/captions]; the spec (section 3) gives it a start time and a
    text. *)
Record t : Type := mk { startMs : Q; text : string }.
End Caption.

Module Page.
(** Modelled from the spec: the page type returned by
    [createTikTokStyleCaptions] is declared in [@remotion/captions]; the
    component reads only [startMs], the spec (section 3) adds the tokens. *)
Record t : Type := mk { startMs : Q; tokens : list Caption.t }.
End Page.

(** The [<Sequence key from durationInFrames>] element wrapping
    [<SubtitlePage page>]. *)
Record Sequence : Type := mkSequence {
  key : nat;
  from : Q;
  durationInFrames : Q;
  page : Page.t
}.

(** ** The timeline mapper: the body of [pages.map((page, index) => ...)] *)

Definition SWITCH_CAPTIONS_EVERY_MS : Q := 1200.

Section Mapper.
Variable fps : Q.
Variable maxDurationMs : Q.
Variable pages : list Page.t.

(** [const nextPage = pages[index + 1] ?? null] *)
Definition nextPage (index : nat) : option Page.t := pages !! (index + 1)%nat.

(** [(page.startMs / 1000) * fps] *)
Definition frameOf (p : Page.t) : Q := (Page.startMs p / 1000) * fps.

(** [nextPage ? (nextPage.startMs / 1000) * fps : Infinity] *)
Definition nextStartFrame (index : nat) : number :=
  match nextPage index with
  | Some np => Finite (frameOf np)
  | None => Infinity
  end.

Definition subtitleEndFrame (index : nat) (p : Page.t) : Q :=
  Math_min (nextStartFrame index) (frameOf p + maxDurationMs).

Definition pageDuration (index : nat) (p : Page.t) : Q :=
  subtitleEndFrame index p - frameOf p.

(** One iteration of the callback: [null] is [None]. *)
Definition renderPage (index : nat) (p : Page.t) : option Sequence :=
  let subtitleStartFrame := frameOf p in
  let durationInFrames := pageDuration index p in
  if Qleb durationInFrames 0 then None
  else Some (mkSequence index subtitleStartFrame durationInFrames p).

Definition mapToFrames : list (option Sequence) := imap renderPage pages.

(** What is rendered: the elements that are not [null], in array order. *)
Definition emitted : list Sequence := omap id mapToFrames.
End Mapper.

(** The component itself: the cap is the constant. *)
Definition CaptionedVideo_sequences (fps : Q) (pages : list Page.t)
  : list (option Sequence) :=
  mapToFrames fps SWITCH_CAPTIONS_EVERY_MS pages.

Definition CaptionedVideo_emitted (fps : Q) (pages : list Page.t)
  : list Sequence :=
  emitted fps SWITCH_CAPTIONS_EVERY_MS pages.

(** ** The caption grouper *)


Module Grouper.
(** The walk keeps the pages already closed and the page being filled. *)
Record state : Type := mkState {
  closed : list Page.t;
  current : option Page.t
}.

Definition newPage (c : Caption.t) : Page.t :=
  Page.mk (Caption.startMs c) [c].

Definition appendToken (p : Page.t) (c : Caption.t) : Page.t :=
  Page.mk (Page.startMs p) (Page.tokens p ++ [c]).

(** The gap between a caption and the start of the current page. *)
Definition gap (p : Page.t) (c : Caption.t) : Q :=
  Caption.startMs c - Page.startMs p.

(** Modelled from the spec: the body of [createTikTokStyleCaptions], which
    is imported from the package [@remotion/captions], is not among the
    sources.  Section 4.1 of the spec: the first caption starts a page; a
    later caption joins the current page when its gap to the page's start is
    below the threshold, and otherwise closes the page and starts the next
    one at this caption. *)
Definition step (thresholdMs : Q) (st : state) (c : Caption.t) : state :=
  match current st with
  | None => mkState (closed st) (Some (newPage c))
  | Some p =>
      if Qltb (gap p c) thresholdMs
      then mkState (closed st) (Some (appendToken p c))
      else mkState (closed st ++ [p]) (Some (newPage c))
  end.

Definition finish (st : state) : list Page.t :=
  closed st ++ option_list (current st).

Definition walk (thresholdMs : Q) (captions : list Caption.t) (st : state)
  : state :=
  fold_left (step thresholdMs) captions st.

(** Modelled from the spec: [group(captions, thresholdMs)] of section 4.1,
    one walk over the captions from the state with no page; the body of
    [createTikTokStyleCaptions] is not among the sources. *)
Definition group (captions : list Caption.t) (thresholdMs : Q)
  : list Page.t :=
  finish (walk thresholdMs captions (mkState [] None)).




End Grouper.

(** [createTikTokStyleCaptions({combineTokensWithinMilliseconds, captions})]
    and the [useMemo] of the component. *)
Definition createTikTokStyleCaptions
    (combineTokensWithinMilliseconds : Q) (captions : list Caption.t)
  : list Page.t :=
  Grouper.group captions combineTokensWithinMilliseconds.

Definition CaptionedVideo_pages (subtitles : list Caption.t) : list Page.t :=
  createTikTokStyleCaptions SWITCH_CAPTIONS_EVERY_MS subtitles.

(** ** Loading the subtitles: [fetchSubtitles] *)

Module Loader.
(** A thrown value. *)
Inductive Error : Type :=
| FetchFailed (status : nat)   (* new Error(`Failed to fetch subtitles: ${res.status}`) *)
| Thrown (what : string).      (* anything a collaborator throws or rejects with *)

Record Response : Type := mkResponse {
  ok : bool;
  status : nat;
  json : Error + list Caption.t     (* await res.json() *)
}.

Record StaticFile : Type := mkStaticFile { src : string }.

(** The collaborators, as what each call answers. *)
Record World : Type := mkWorld {
  loadFont : Error + unit;
  getStaticFiles : list StaticFile;
  fetch : string -> Error + Response
}.

(** The React state of the component and the handles passed to
    [continueRender]. *)
Record State : Type := mkSt {
  subtitles : list Caption.t;
  handle : option string;
  continued : list string
}.

(** [useState<Caption[]>([])], [useState<string | null>(null)] *)
Definition initialState : State := mkSt [] None [].

(** Computations that change the state and may throw. *)
Definition M (A : Type) : Type := State -> (Error + A) * State.

#[export] Instance M_ret : MRet M := fun A a st => (inr a, st).
#[export] Instance M_bind : MBind M := fun A B k m st =>
  match m st with
  | (inl e, st') => (inl e, st')
  | (inr a, st') => k a st'
  end.

Definition throw {A} (e : Error) : M A := fun st => (inl e, st).
Definition try_catch {A} (body : M A) (handler : Error -> M A) : M A :=
  fun st =>
    match body st with
    | (inl e, st') => handler e st'
    | r => r
    end.
(** [await] of a collaborator's answer. *)
Definition await {A} (r : Error + A) : M A :=
  fun st => (r, st).

Definition setSubtitles (data : list Caption.t) : M unit :=
  fun st => (inr tt, mkSt data (handle st) (continued st)).

Definition continueRender (h : string) : M unit :=
  fun st => (inr tt, mkSt (subtitles st) (handle st) (continued st ++ [h])).

(** [Boolean(files.find((f) => f.src === file))] *)
Definition getFileExists (w : World) (file : string) : bool :=
  match find (fun f => String.eqb (src f) file) (getStaticFiles w) with
  | Some _ => true
  | None => false
  end.

(** [!handle] is false exactly for a non-empty string. *)
Definition truthy (h : option string) : option string :=
  match h with
  | Some s => if String.eqb s "" then None else Some s
  | None => None
  end.

Definition fetchSubtitles (w : World) (subtitlesFile : string) : M unit :=
  fun st =>
    match truthy (handle st) with
    | None => (mret tt : M unit) st
    | Some h =>
        (try_catch
          (await (loadFont w);;
           if negb (getFileExists w subtitlesFile)
           then setSubtitles [];; continueRender h
           else
             res ← await (fetch w subtitlesFile);
             if negb (ok res)
             then throw (FetchFailed (status res))
             else
               data ← await (json res);
               setSubtitles data;; continueRender h)
          (fun _ => setSubtitles [];; continueRender h) : M unit)
          st
    end.

(** The state the failure paths end in. *)
Definition degraded (st : State) (h : string) : State :=
  mkSt [] (handle st) (continued st ++ [h]).

(** The caption source is absent, or fetching or decoding it fails. *)
Definition source_fails (w : World) (subtitlesFile : string) : Prop :=
  (exists e, loadFont w = inl e)
  \/ getFileExists w subtitlesFile = false
  \/ (exists e, fetch w subtitlesFile = inl e)
  \/ (exists res, fetch w subtitlesFile = inr res
                  /\ (ok res = false \/ exists e, json res = inl e)).
End Loader.

(** ** Composition metadata: [calculateCaptionedVideoMetadata] *)

Module Metadata.
(** The answer of [getVideoMetadata]; the function reads the duration
    only. *)
Record VideoMetadata : Type := mkVideoMetadata { durationInSeconds : Q }.

Record Composition : Type := mkComposition {
  fps : Q;
  durationInFrames : Z
}.

(** [getVideoMetadata] resolves or rejects. *)
Definition calculateCaptionedVideoMetadata
    (getVideoMetadata : string -> Loader.Error + VideoMetadata)
    (props_src : string) : Loader.Error + Composition :=
  let fps := 30 in
  match getVideoMetadata props_src with
  | inl e => inl e
  | inr metadata =>
      inr (mkComposition fps (Qfloor (durationInSeconds metadata * fps)))
  end.
End Metadata.

(** ** The name of the subtitles file *)

Module FileName.
(** A string is the sequence of its code units; the strings here hold the
    code units below 256.  One position of a pattern is the test a code unit
    must pass. *)
Definition atom : Type := ascii -> bool.

(** The line terminators, which [.] does not match: of the four of the
    language, line feed and carriage return are below 256. *)
Definition isLineTerminator (c : ascii) : bool :=
  Ascii.eqb c "010" || Ascii.eqb c "013".

Definition dot : atom := fun c => negb (isLineTerminator c).
Definition lit (x : ascii) : atom := fun c => Ascii.eqb c x.

(** The pattern [/.ext$/]: any code unit but a line terminator, then the
    letters of [ext], then the end of the input. *)
Definition pattern (ext : string) : list atom :=
  dot :: map lit (String.list_ascii_of_string ext).

(** The pattern, with its [$], matches from the start of [s]: it uses up
    [s]. *)
Fixpoint matches_to_end (pat : list atom) (s : string) : bool :=
  match pat, s with
  | [], EmptyString => true
  | a :: pat', String c s' => a c && matches_to_end pat' s'
  | _, _ => false
  end.

(** [regexp.test(s)]: the pattern matches at some position of [s]. *)
Fixpoint test (pat : list atom) (s : string) : bool :=
  matches_to_end pat s
  || match s with
     | EmptyString => false
     | String _ s' => test pat s'
     end.

(** [s.replace(regexp, repl)] for a pattern that ends in [$] and a
    replacement without [$]: the leftmost match is replaced, and a string
    without a match is returned as it is. *)
Fixpoint replace (pat : list atom) (repl : string) (s : string) : string :=
  if matches_to_end pat s then repl
  else match s with
       | EmptyString => EmptyString
       | String c s' => String c (replace pat repl s')
       end.

(** [src.replace(/.mp4$/, ".json").replace(/.mkv$/, ".json")
        .replace(/.mov$/, ".json").replace(/.webm$/, ".json")] *)
Definition subtitlesFile (src : string) : string :=
  replace (pattern "webm") ".json"
    (replace (pattern "mov") ".json"
       (replace (pattern "mkv") ".json"
          (replace (pattern "mp4") ".json" src))).

(** [s.endsWith(ext)] *)
Fixpoint endsWith (s ext : string) : bool :=
  String.eqb s ext
  || match s with
     | EmptyString => false
     | String _ s' => endsWith s' ext
     end.

(** The extensions the component knows. *)
Definition extensions : list string := ["mp4"; "mkv"; "mov"; "webm"].

(** No pattern of the component matches [s]. *)
Definition unmatched (s : string) : Prop :=
  Forall (fun ext => test (pattern ext) s = false) extensions.
End FileName.

(** ** The timeline mapper on binary64 numbers *)

Module Binary64.
Import PrimFloat.
Local Open Scope float_scope.

(** The component reads the start time of a page and nothing else. *)
Record Page : Type := mkPage { startMs : float }.

Record Sequence : Type := mkSequence {
  key : nat;
  from : float;
  durationInFrames : float;
  page : Page
}.

(** [Math.min(a, b)]: [NaN] when an argument is [NaN], and [-0] below
    [+0]. *)
Definition Math_min (a b : float) : float :=
  if is_nan a || is_nan b then nan
  else if a <? b then a
  else if b <? a then b
  else if get_sign a then a else b.

Definition SWITCH_CAPTIONS_EVERY_MS : float := 1200.

Section Mapper.
Variable fps : float.
Variable pages : list Page.

(** [(page.startMs / 1000) * fps] *)
Definition frameOf (p : Page) : float := (startMs p / 1000) * fps.

(** [nextPage ? (nextPage.startMs / 1000) * fps : Infinity], with
    [nextPage = pages[index + 1] ?? null] *)
Definition nextStartFrame (index : nat) : float :=
  match pages !! (index + 1)%nat with
  | Some np => frameOf np
  | None => infinity
  end.

Definition subtitleEndFrame (index : nat) (p : Page) : float :=
  Math_min (nextStartFrame index) (frameOf p + SWITCH_CAPTIONS_EVERY_MS).

Definition pageDuration (index : nat) (p : Page) : float :=
  subtitleEndFrame index p - frameOf p.

(** One iteration of the callback: [null] is [None]. *)
Definition renderPage (index : nat) (p : Page) : option Sequence :=
  let subtitleStartFrame := frameOf p in
  let durationInFrames := pageDuration index p in
  if durationInFrames <=? 0 then None
  else Some (mkSequence index subtitleStartFrame durationInFrames p).

Definition CaptionedVideo_sequences : list (option Sequence) :=
  imap renderPage pages.
End Mapper.

(** The binary64 number of an integer (exact below 2^53). *)
Definition ofZ (n : Z) : float := of_uint63 (Uint63.of_Z n).
End Binary64.

(** The specification of binary64 numbers: sign, mantissa, exponent. *)
Module Binary64Spec.
Import SpecFloat.

(** A shifted mantissa with nothing lost so far. *)
Definition rec0 (m : Z) : shr_record := Build_shr_record m false false.

(** [z * 2^k] *)
Definition shl (z : positive) (k : Z) : positive :=
  match k with
  | Zpos d => Pos.iter xO z d
  | _ => z
  end.

(** The binary64 number of the positive integer [z], when [z] has at most 53
    binary digits. *)
Definition canon (z : positive) : spec_float :=
  S754_finite false
    (shl z (53 - Zpos (digits2_pos z))) (Zpos (digits2_pos z) - 53).
End Binary64Spec.

(** ** Outcomes of loading *)

(** The caption source is there and every step of loading it succeeds with
    [data]. *)
Definition source_loads
    (w : Loader.World) (subtitlesFile : string) (data : list Caption.t)
  : Prop :=
  Loader.loadFont w = inr tt
  /\ Loader.getFileExists w subtitlesFile = true
  /\ exists res, Loader.fetch w subtitlesFile = inr res
                 /\ Loader.ok res = true
                 /\ Loader.json res = inr data.

(** ** Sample data *)

Definition cap (ms : Q) (w : string) : Caption.t := Caption.mk ms w.

(** A world with no static file, and a component that has captions and a
    render handle. *)
Definition noFiles : Loader.World :=
  Loader.mkWorld (inr tt) [] (fun _ => inl (Loader.Thrown "unreachable")).

Definition loaded : Loader.State :=
  Loader.mkSt [cap 0 "a"] (Some "wait video") [].

(** A probe that knows two videos. *)
Definition probeByName (name : string)
  : Loader.Error + Metadata.VideoMetadata :=
  if String.eqb name "short.mp4" then inr (Metadata.mkVideoMetadata (1 # 50))
  else if String.eqb name "long.mp4" then inr (Metadata.mkVideoMetadata (25 # 2))
  else inl (Loader.Thrown "no such video").

(** A world whose only static file is [video.json], served with [data]. *)
Definition oneFile (data : list Caption.t) : Loader.World :=
  Loader.mkWorld (inr tt) [Loader.mkStaticFile "video.json"]
    (fun _ => inr (Loader.mkResponse true 200 (inr data))).

(** * Properties *)

(** ** Arithmetic of the tests *)


Lemma Qleb_false_iff (x y : Q) : Qleb x y = false <-> y < x.
Proof.
  unfold Qleb. split.
  - intros H. apply Qnot_le_lt. intros Hle.
    apply Qle_bool_iff in Hle. congruence.
  - intros H. destruct (Qle_bool x y) eqn:E; [|reflexivity].
    apply Qle_bool_iff in E. exfalso. exact (Qlt_not_le _ _ H E).
Qed.



(** ** The mapper, page by page *)

Section MapperFacts.
Variable fps : Q.
Variable maxDurationMs : Q.
Variable pages : list Page.t.





Lemma renderPage_Some (i : nat) (p : Page.t) (s : Sequence) :
  renderPage fps maxDurationMs pages i p = Some s ->
  key s = i /\ page s = p /\ from s = frameOf fps p
  /\ durationInFrames s = pageDuration fps maxDurationMs pages i p
  /\ 0 < durationInFrames s.
Proof.
  unfold renderPage.
  destruct (Qleb (pageDuration fps maxDurationMs pages i p) 0) eqn:E;
    [discriminate|].
  intros [= <-]. simpl. apply Qleb_false_iff in E. auto.
Qed.

End MapperFacts.



(** ** What is emitted *)

Lemma emitted_elem (fps maxDurationMs : Q) (pages : list Page.t) (s : Sequence) :
  s ∈ emitted fps maxDurationMs pages <->
  exists i p, pages !! i = Some p
              /\ renderPage fps maxDurationMs pages i p = Some s.
Proof.
  unfold emitted, mapToFrames. rewrite list_elem_of_omap. split.
  - intros (o & Ho & Hs). simpl in Hs. subst o.
    apply elem_of_lookup_imap in Ho as (i & p & Hr & Hp). eauto.
  - intros (i & p & Hp & Hr). exists (Some s). split; [|reflexivity].
    apply elem_of_lookup_imap. exists i, p. split; [congruence | exact Hp].
Qed.

Lemma omap_imap_sublist (f : nat -> Page.t -> option Sequence) (l : list Page.t) :
  (forall i x y, f i x = Some y -> page y = x) ->
  sublist (page <$> omap id (imap f l)) l.
Proof.
  revert f. induction l as [|x l IH]; intros f Hf; simpl.
  - constructor.
  - destruct (f 0%nat x) as [y|] eqn:E; simpl.
    + rewrite (Hf _ _ _ E). apply sublist_skip.
      apply IH. intros i x' y' H. exact (Hf _ _ _ H).
    + apply sublist_cons. apply IH. intros i x' y' H. exact (Hf _ _ _ H).
Qed.

Lemma omap_imap_keys_sorted
    (f : nat -> Page.t -> option Sequence) (k : nat) (l : list Page.t) :
  (forall i x y, f i x = Some y -> key y = (k + i)%nat) ->
  Forall (fun n => (k <= n)%nat) (key <$> omap id (imap f l))
  /\ StronglySorted lt (key <$> omap id (imap f l)).
Proof.
  revert f k. induction l as [|x l IH]; intros f k Hf; simpl.
  - split; constructor.
  - assert (Hf' : forall i x' y', (f ∘ S) i x' = Some y'
                                  -> key y' = (S k + i)%nat).
    { intros i x' y' H. rewrite (Hf _ _ _ H). lia. }
    destruct (IH _ _ Hf') as [Hge Hsorted].
    destruct (f 0%nat x) as [y|] eqn:E; simpl.
    + pose proof (Hf _ _ _ E) as Hk. split.
      * constructor; [lia|].
        eapply Forall_impl; [exact Hge|]. simpl. intros; lia.
      * constructor; [exact Hsorted|].
        eapply Forall_impl; [exact Hge|]. simpl. intros; lia.
    + split; [|exact Hsorted].
      eapply Forall_impl; [exact Hge|]. simpl. intros; lia.
Qed.

(** C5.  No emitted interval has a duration that is zero or negative. *)
Theorem emitted_duration_positive
    (fps maxDurationMs : Q) (pages : list Page.t) :
  Forall (fun s => 0 < durationInFrames s /\ ~ durationInFrames s <= 0)
    (emitted fps maxDurationMs pages).
Proof.
  apply Forall_forall. intros s Hs.
  apply emitted_elem in Hs as (i & p & _ & Hr).
  apply renderPage_Some in Hr as (_ & _ & _ & _ & Hpos).
  split; [exact Hpos | apply Qlt_not_le; exact Hpos].
Qed.

(** C6.  The emitted intervals are, in order, those of a subsequence of the
    input pages: their pages form a sublist of the input, their keys are the
    positions of those pages and increase strictly (so no page gives two
    intervals and none is moved), and there are at most as many intervals as
    pages. *)
Theorem emitted_subsequence
    (fps maxDurationMs : Q) (pages : list Page.t) :
  let out := emitted fps maxDurationMs pages in
  sublist (page <$> out) pages
  /\ StronglySorted lt (key <$> out)
  /\ Forall (fun s => pages !! key s = Some (page s)) out
  /\ (length out <= length pages)%nat.
Proof.
  intros out.
  assert (Hsub : sublist (page <$> out) pages).
  { apply omap_imap_sublist. intros i x y H.
    apply renderPage_Some in H. tauto. }
  split; [exact Hsub|]. split; [|split].
  - apply (omap_imap_keys_sorted _ 0%nat). intros i x y H.
    apply renderPage_Some in H. tauto.
  - apply Forall_forall. intros s Hs.
    apply emitted_elem in Hs as (i & p & Hp & Hr).
    apply renderPage_Some in Hr as (-> & -> & _). exact Hp.
  - apply sublist_length in Hsub. rewrite length_fmap in Hsub. exact Hsub.
Qed.

(** ** The cap, on binary64 numbers *)

Module Binary64Facts.
Import PrimFloat FloatOps FloatAxioms SpecFloat.
Import Binary64 Binary64Spec.

(** *** Integers are added and subtracted exactly *)

Lemma iter_pos_iter {A} (f : A -> A) (p : positive) (x : A) :
  iter_pos f p x = Pos.iter f x p.
Proof.
  revert x. induction p as [p IH|p IH|]; intros x; simpl.
  - rewrite !IH. rewrite <- !Pos.iter_swap. reflexivity.
  - rewrite !IH. reflexivity.
  - reflexivity.
Qed.

Lemma shr_1_double (q : positive) : shr_1 (rec0 (Zpos (xO q))) = rec0 (Zpos q).
Proof. reflexivity. Qed.

Lemma iter_shr_shifted (q k : positive) :
  iter_pos shr_1 k (rec0 (Zpos (Pos.iter xO q k))) = rec0 (Zpos q).
Proof.
  rewrite iter_pos_iter. induction k as [|k IH] using Pos.peano_ind.
  - reflexivity.
  - rewrite !Pos.iter_succ, <- Pos.iter_swap.
    rewrite shr_1_double. exact IH.
Qed.

Lemma digits_shifted (q k : positive) :
  digits2_pos (Pos.iter xO q k) = (digits2_pos q + k)%positive.
Proof.
  induction k as [|k IH] using Pos.peano_ind.
  - simpl. lia.
  - rewrite Pos.iter_succ. simpl. rewrite IH. lia.
Qed.

Lemma digits_shl z k : (0 <= k)%Z ->
  Zpos (digits2_pos (shl z k)) = (Zpos (digits2_pos z) + k)%Z.
Proof.
  intros Hk. destruct k as [|d|d]; simpl; [lia| |lia].
  rewrite digits_shifted. lia.
Qed.

Lemma shl_shl z a b : (0 <= a)%Z -> (0 <= b)%Z -> shl (shl z a) b = shl z (a + b).
Proof.
  intros Ha Hb. destruct a as [|a|a], b as [|b|b]; simpl; try lia; try reflexivity.
  rewrite (Pos.add_comm a b), Pos.iter_add. reflexivity.
Qed.

Lemma Zpos_shl z k : (0 <= k)%Z -> Zpos (shl z k) = (Zpos z * 2 ^ k)%Z.
Proof.
  intros Hk. destruct k as [|d|d]; simpl shl; [rewrite Z.mul_1_r; reflexivity| |lia].
  induction d as [|d IH] using Pos.peano_ind.
  - simpl. lia.
  - rewrite Pos.iter_succ, Pos2Z.inj_succ, Z.pow_succ_r by lia.
    rewrite Pos2Z.inj_xO, IH by lia. ring.
Qed.

Lemma fexp_eq (x : Z) : (-1021 <= x)%Z -> fexp prec emax x = (x - 53)%Z.
Proof. unfold fexp, emin, prec, emax. lia. Qed.

Lemma round_aux_canonical (m : positive) (e : Z) :
  fexp prec emax (Zpos (digits2_pos m) + e) = e ->
  (e <= emax - prec)%Z ->
  binary_round_aux prec emax false (Zpos m) e loc_Exact = S754_finite false m e.
Proof.
  intros Hc He. unfold binary_round_aux, shr_fexp.
  cbn [Zdigits2 shr_record_of_loc]. rewrite Hc, Z.sub_diag.
  cbn [shr shr_m loc_of_shr_record round_nearest_even Zdigits2 shr_record_of_loc].
  rewrite Hc, Z.sub_diag. cbn [shr shr_m].
  apply Z.leb_le in He. rewrite He. reflexivity.
Qed.

Lemma round_aux_shifted (q t : positive) (e : Z) :
  fexp prec emax (Zpos (digits2_pos q) + Zpos t + e) = (e + Zpos t)%Z ->
  (e + Zpos t <= emax - prec)%Z ->
  binary_round_aux prec emax false (Zpos (Pos.iter xO q t)) e loc_Exact
  = S754_finite false q (e + Zpos t).
Proof.
  intros Hc He. unfold binary_round_aux, shr_fexp.
  cbn [Zdigits2 shr_record_of_loc]. rewrite digits_shifted, Pos2Z.inj_add, Hc.
  replace (e + Zpos t - e)%Z with (Zpos t) by lia.
  cbn [shr]. fold (rec0 (Zpos (Pos.iter xO q t))). rewrite iter_shr_shifted.
  cbn [rec0 shr_m loc_of_shr_record round_nearest_even Zdigits2 shr_record_of_loc].
  replace (fexp prec emax (Zpos (digits2_pos q) + (e + Zpos t)))
    with (e + Zpos t)%Z by (rewrite <- Hc; f_equal; lia).
  rewrite Z.sub_diag. cbn [shr shr_m].
  apply Z.leb_le in He. rewrite He. reflexivity.
Qed.

Lemma normalize_exact (z : positive) (k : Z) :
  (0 <= k <= 1000)%Z -> (Zpos (digits2_pos z) <= 53)%Z ->
  binary_normalize prec emax (Zpos (shl z k)) (- k) false = canon z.
Proof.
  intros Hk Hd. unfold binary_normalize, binary_round, canon.
  set (d := Zpos (digits2_pos z)) in *.
  assert (Hdpos : (1 <= d)%Z) by (unfold d; lia).
  rewrite digits_shl by lia. fold d.
  rewrite fexp_eq by lia. unfold shl_align.
  destruct (d + k + - k - 53 - - k)%Z as [|t|t] eqn:Et.
  - replace (- k)%Z with (d - 53)%Z by lia. replace k with (53 - d)%Z by lia.
    apply round_aux_canonical.
    + rewrite digits_shl by lia. fold d. rewrite fexp_eq by lia. lia.
    + unfold emax, prec. lia.
  - assert (Hsplit : shl z k = Pos.iter xO (shl z (53 - d)) t).
    { change (Pos.iter xO (shl z (53 - d)) t) with (shl (shl z (53 - d)) (Zpos t)).
      rewrite shl_shl by lia. f_equal. lia. }
    rewrite Hsplit. replace (d - 53)%Z with (- k + Zpos t)%Z by lia.
    apply round_aux_shifted.
    + rewrite digits_shl by lia. fold d. rewrite fexp_eq by lia. lia.
    + unfold emax, prec. lia.
  - change (Pos.iter xO (shl z k) t) with (shl (shl z k) (Zpos t)).
    rewrite shl_shl by lia. replace (k + Zpos t)%Z with (53 - d)%Z by lia.
    replace (d + k + - k - 53)%Z with (d - 53)%Z by lia.
    apply round_aux_canonical.
    + rewrite digits_shl by lia. fold d. rewrite fexp_eq by lia. lia.
    + unfold emax, prec. lia.
Qed.

Lemma digits_size (p : positive) : digits2_pos p = Pos.size p.
Proof. induction p as [p IH|p IH|]; simpl; rewrite ?IH; reflexivity. Qed.

Lemma digits_le_53 (z : positive) :
  (Zpos z < 2 ^ 53)%Z -> (Zpos (digits2_pos z) <= 53)%Z.
Proof.
  intros Hz. rewrite digits_size.
  destruct (Z_le_gt_dec (Zpos (Pos.size z)) 53) as [H|H]; [exact H|exfalso].
  pose proof (Pos.size_le z) as Hle.
  assert (H2 : (2 ^ Zpos (Pos.size z) <= 2 * Zpos z)%Z).
  { rewrite <- Pos2Z.inj_pow. apply Pos2Z.pos_le_pos in Hle. exact Hle. }
  assert (H3 : (2 ^ 54 <= 2 ^ Zpos (Pos.size z))%Z)
    by (apply Z.pow_le_mono_r; lia).
  lia.
Qed.

Lemma align_shl (x : positive) (a e ez : Z) :
  (0 <= a)%Z -> (ez <= e)%Z ->
  fst (shl_align (shl x a) e ez) = shl x (a + (e - ez)).
Proof.
  intros Ha He. unfold shl_align.
  destruct (ez - e)%Z as [|t|t] eqn:Et; simpl fst; [|lia|].
  - f_equal. lia.
  - change (Pos.iter xO (shl x a) t) with (shl (shl x a) (Zpos t)).
    rewrite shl_shl by lia. f_equal. lia.
Qed.

Lemma add_exact (x y : positive) :
  (Zpos x + Zpos y < 2 ^ 53)%Z ->
  SF64add (canon x) (canon y) = canon (x + y).
Proof.
  intros Hb.
  assert (Hx : (Zpos (digits2_pos x) <= 53)%Z) by (apply digits_le_53; lia).
  assert (Hy : (Zpos (digits2_pos y) <= 53)%Z) by (apply digits_le_53; lia).
  assert (Hxy : (Zpos (digits2_pos (x + y)) <= 53)%Z)
    by (apply digits_le_53; lia).
  unfold SF64add, SFadd, canon.
  set (dx := Zpos (digits2_pos x)) in *. set (dy := Zpos (digits2_pos y)) in *.
  assert (Hdx : (1 <= dx)%Z) by (unfold dx; lia).
  assert (Hdy : (1 <= dy)%Z) by (unfold dy; lia).
  cbv zeta. set (ez := Z.min (dx - 53) (dy - 53)).
  rewrite !align_shl by lia. unfold cond_Zopp.
  replace (53 - dx + (dx - 53 - ez))%Z with (- ez)%Z by lia.
  replace (53 - dy + (dy - 53 - ez))%Z with (- ez)%Z by lia.
  assert (Hsum : (Zpos (shl x (- ez)) + Zpos (shl y (- ez)))%Z
                 = Zpos (shl (x + y) (- ez))).
  { rewrite !Zpos_shl by lia. rewrite Pos2Z.inj_add. ring. }
  rewrite Hsum. replace ez with (- - ez)%Z at 2 by lia.
  apply normalize_exact; [lia | exact Hxy].
Qed.

Lemma sub_exact (x y : positive) :
  (y < x)%positive -> (Zpos x < 2 ^ 53)%Z ->
  SF64sub (canon x) (canon y) = canon (x - y).
Proof.
  intros Hlt Hb.
  assert (Hx : (Zpos (digits2_pos x) <= 53)%Z) by (apply digits_le_53; lia).
  assert (Hy : (Zpos (digits2_pos y) <= 53)%Z) by (apply digits_le_53; lia).
  assert (Hxy : (Zpos (digits2_pos (x - y)) <= 53)%Z)
    by (apply digits_le_53; lia).
  unfold SF64sub, SFsub, canon.
  set (dx := Zpos (digits2_pos x)) in *. set (dy := Zpos (digits2_pos y)) in *.
  assert (Hdx : (1 <= dx)%Z) by (unfold dx; lia).
  assert (Hdy : (1 <= dy)%Z) by (unfold dy; lia).
  cbv zeta. set (ez := Z.min (dx - 53) (dy - 53)).
  rewrite !align_shl by lia. unfold cond_Zopp.
  replace (53 - dx + (dx - 53 - ez))%Z with (- ez)%Z by lia.
  replace (53 - dy + (dy - 53 - ez))%Z with (- ez)%Z by lia.
  assert (Hdiff : (Zpos (shl x (- ez)) - Zpos (shl y (- ez)))%Z
                  = Zpos (shl (x - y) (- ez))).
  { rewrite !Zpos_shl by lia. rewrite Pos2Z.inj_sub by exact Hlt. ring. }
  rewrite Hdiff. replace ez with (- - ez)%Z at 2 by lia.
  apply normalize_exact; [lia | exact Hxy].
Qed.

Lemma Prim2SF_of_uint63 (i : PrimInt63.int) :
  Prim2SF (of_uint63 i)
  = match Uint63.to_Z i with
    | Zpos z => binary_normalize prec emax (Zpos z) 0 false
    | _ => S754_zero false
    end.
Proof.
  rewrite of_uint63_spec. pose proof (Uint63.to_Z_bounded i) as Hb.
  destruct (Uint63.to_Z i) as [|z|z]; [reflexivity | reflexivity | lia].
Qed.


Local Open Scope float_scope.

Lemma cap_exact_on_integers (i : PrimInt63.int) :
  (Uint63.to_Z i + 1200 < 2 ^ 53)%Z ->
  (of_uint63 i + 1200) - of_uint63 i = 1200.
Proof.
  intros Hb. apply Prim2SF_inj.
  rewrite sub_spec, add_spec, Prim2SF_of_uint63.
  destruct (Uint63.to_Z i) as [|z|z] eqn:Ez.
  - reflexivity.
  - change (binary_normalize prec emax (Zpos z) 0 false)
      with (binary_normalize prec emax (Zpos (shl z 0)) (- 0) false).
    rewrite normalize_exact by (try apply digits_le_53; lia).
    change (Prim2SF 1200) with (canon 1200).
    rewrite add_exact by lia.
    rewrite sub_exact by lia.
    replace (z + 1200 - z)%positive with 1200%positive by lia.
    reflexivity.
  - reflexivity.
Qed.

Lemma cap_exact_ofZ (n : Z) :
  (0 <= n)%Z -> (n + 1200 < 2 ^ 53)%Z ->
  (ofZ n + 1200) - ofZ n = 1200.
Proof.
  intros H0 Hb. unfold ofZ. apply cap_exact_on_integers.
  rewrite Uint63.of_Z_spec. rewrite Z.mod_small; [exact Hb|].
  split; [exact H0|].
  apply Z.lt_trans with (2 ^ 53)%Z; [lia | reflexivity].
Qed.

(** *** [Math.min] with [Infinity] *)

Lemma SFeqb_refl_false (x : spec_float) : SFeqb x x = false -> x = S754_nan.
Proof.
  destruct x as [s|s| |s m e]; unfold SFeqb, SFcompare;
    try destruct s; try discriminate; try reflexivity.
  all: rewrite ?Z.compare_refl, ?Pos.compare_cont_refl; simpl; discriminate.
Qed.

Lemma is_nan_true (x : float) : is_nan x = true -> x = nan.
Proof.
  unfold is_nan. rewrite negb_true_iff, eqb_spec. intros H.
  apply SFeqb_refl_false in H.
  rewrite <- (SF2Prim_Prim2SF x), H. reflexivity.
Qed.

Lemma Math_min_infinity (b : float) : Math_min infinity b = b.
Proof.
  unfold Math_min. change (is_nan infinity) with false. simpl.
  destruct (is_nan b) eqn:Hnan.
  - symmetry. apply is_nan_true. exact Hnan.
  - assert (H : (infinity <? b) = false).
    { rewrite ltb_spec. change (Prim2SF infinity) with (S754_infinity false).
      destruct (Prim2SF b) as [s|s| |s m e]; try destruct s; reflexivity. }
    rewrite H. destruct (b <? infinity); reflexivity.
Qed.

(** *** The last page *)

Lemma last_lookup_end {A : Type} (l : list A) :
  l <> [] ->
  exists x, last l = Some x
            /\ l !! pred (length l) = Some x
            /\ l !! (pred (length l) + 1)%nat = None.
Proof.
  intros Hne. destruct (last l) as [x|] eqn:E.
  - exists x. split; [reflexivity|]. split.
    + rewrite <- last_lookup. exact E.
    + apply lookup_ge_None. destruct l; [congruence | simpl; lia].
  - apply last_None in E. contradiction.
Qed.

Lemma renderPage_last (fps : float) (pages : list Page) (i : nat) (p : Page) :
  pages !! (i + 1)%nat = None ->
  renderPage fps pages i p
  = let s := startMs p / 1000 * fps in
    let d := (s + 1200) - s in
    if d <=? 0 then None else Some (mkSequence i s d p).
Proof.
  intros Hnext.
  unfold renderPage, pageDuration, subtitleEndFrame, nextStartFrame.
  rewrite Hnext, Math_min_infinity. reflexivity.
Qed.

(** C2, as the code has it.  The cap of 1200 is added to the start frame as
    it is, with no conversion by the frame rate: the last page of a
    non-empty page sequence gets the duration [(start + 1200) - start],
    computed on binary64 numbers, and is emitted unless that is zero or
    negative.  It is emitted with exactly 1200 frames whenever its start
    frame is a whole number from 0 up with [start + 1200] below 2^53. *)
Theorem last_page_cap_unconverted (fps : float) (pages : list Page) :
  pages <> [] ->
  exists p,
    last pages = Some p
    /\ let s := startMs p / 1000 * fps in
       let d := (s + SWITCH_CAPTIONS_EVERY_MS) - s in
       last (CaptionedVideo_sequences fps pages)
       = Some (if d <=? 0 then None
               else Some (mkSequence (pred (length pages)) s d p))
       /\ forall n : Z,
            (0 <= n)%Z -> (n + 1200 < 2 ^ 53)%Z -> s = ofZ n ->
            last (CaptionedVideo_sequences fps pages)
            = Some (Some (mkSequence (pred (length pages)) s 1200 p)).
Proof.
  intros Hne.
  destruct (last_lookup_end pages Hne) as (p & Hlast & Hp & Hnext).
  exists p. split; [exact Hlast|]. cbv zeta.
  assert (Hrender :
            last (CaptionedVideo_sequences fps pages)
            = Some (renderPage fps pages (pred (length pages)) p)).
  { unfold CaptionedVideo_sequences.
    rewrite last_lookup, length_imap, list_lookup_imap, Hp. reflexivity. }
  rewrite Hrender, (renderPage_last _ _ _ _ Hnext). cbv zeta.
  split; [reflexivity|].
  intros n H0 Hb Hs. rewrite Hs.
  unfold SWITCH_CAPTIONS_EVERY_MS. rewrite (cap_exact_ofZ n H0 Hb).
  reflexivity.
Qed.

Lemma last_page_cap_unconverted_witness :
  last (CaptionedVideo_sequences 30 [mkPage 0; mkPage 1300])
  = Some (Some (mkSequence 1 (1300 / 1000 * 30) 1200 (mkPage 1300))).
Proof.
  destruct (last_page_cap_unconverted 30 [mkPage 0; mkPage 1300])
    as (p & Hlast & _ & Hwhole).
  - discriminate.
  - injection Hlast as <-. apply (Hwhole 39%Z).
    + lia.
    + reflexivity.
    + reflexivity.
Defined.

(** C2, as the spec has it, fails.  At 30 fps a single page that starts at
    28267 ms lasts a little more than 1200 frames, and one that starts at
    10^21 ms is not emitted at all. *)
Lemma last_page_not_exactly_cap :
  (exists s,
      last (CaptionedVideo_sequences 30 [mkPage 28267]) = Some (Some s)
      /\ durationInFrames s <> 1200
      /\ (1200 <? durationInFrames s) = true)
  /\ last (CaptionedVideo_sequences 30 [mkPage 1e21]) = Some None.
Proof.
  split; [|reflexivity].
  eexists. split; [vm_compute; reflexivity|]. cbn [durationInFrames]. split.
  - intros H. apply (f_equal (fun x => x =? 1200)) in H.
    vm_compute in H. discriminate H.
  - reflexivity.
Qed.

(** The scenario of the spec on binary64 numbers: 39 frames, then 1200. *)
Example scenario_binary64 :
  CaptionedVideo_sequences 30 [mkPage 0; mkPage 1300]
  = [Some (mkSequence 0 0 39 (mkPage 0));
     Some (mkSequence 1 39 1200 (mkPage 1300))].
Proof. reflexivity. Qed.

(** The duration of the last page does not follow the frame rate. *)
Example cap_at_60_fps :
  last (CaptionedVideo_sequences 60 [mkPage 0])
  = Some (Some (mkSequence 0 0 1200 (mkPage 0))).
Proof. reflexivity. Qed.
End Binary64Facts.

(** ** Pages that start together *)



(** ** Whole frames *)









(** ** The grouper *)

Section AdjacentFacts.
Context {A : Type} (R : A -> A -> Prop).



End AdjacentFacts.

Module GrouperFacts.
Import Grouper.





(** Flattening: a step adds its caption at the end. *)
Lemma step_tokens (th : Q) (st : state) (c : Caption.t) :
  concat (Page.tokens <$> finish (step th st c))
  = concat (Page.tokens <$> finish st) ++ [c].
Proof.
  unfold step, finish. destruct (current st) as [p|]; simpl.
  - destruct (Qltb (gap p c) th); simpl;
      rewrite !fmap_app, !concat_app; simpl;
      rewrite ?app_nil_r, <- ?app_assoc; reflexivity.
  - rewrite !fmap_app, !concat_app. simpl. rewrite !app_nil_r. reflexivity.
Qed.

Lemma walk_tokens (th : Q) (captions : list Caption.t) (st : state) :
  concat (Page.tokens <$> finish (walk th captions st))
  = concat (Page.tokens <$> finish st) ++ captions.
Proof.
  unfold walk. revert st.
  induction captions as [|c cs IH]; intros st; simpl.
  - rewrite app_nil_r. reflexivity.
  - rewrite IH, step_tokens, <- app_assoc. reflexivity.
Qed.






End GrouperFacts.




(** The scenario of the spec: three captions, threshold 1200 ms, 30 fps. *)
Example scenario_pages :
  CaptionedVideo_pages [cap 0 "a"; cap 100 "b"; cap 1300 "c"]
  = [Page.mk 0 [cap 0 "a"; cap 100 "b"]; Page.mk 1300 [cap 1300 "c"]].
Proof. reflexivity. Qed.

Example scenario_intervals :
  Forall2 (fun s '(k, f, d) => key s = k /\ from s == f /\ durationInFrames s == d)
    (CaptionedVideo_emitted 30
       (CaptionedVideo_pages [cap 0 "a"; cap 100 "b"; cap 1300 "c"]))
    [(0%nat, 0, 39); (1%nat, 39, 1200)].
Proof. repeat constructor. Qed.

Example group_empty (thresholdMs : Q) :
  createTikTokStyleCaptions thresholdMs [] = [].
Proof. reflexivity. Qed.

Example group_single (thresholdMs : Q) (c : Caption.t) :
  createTikTokStyleCaptions thresholdMs [c]
  = [Page.mk (Caption.startMs c) [c]].
Proof. reflexivity. Qed.

(** C4.  Grouping and then concatenating the tokens of the pages, in page
    order, gives back the captions. *)
Theorem group_flatten_roundtrip (captions : list Caption.t) (thresholdMs : Q) :
  concat (Page.tokens <$> createTikTokStyleCaptions thresholdMs captions)
  = captions.
Proof.
  unfold createTikTokStyleCaptions, Grouper.group.
  rewrite GrouperFacts.walk_tokens. reflexivity.
Qed.

(** ** Loading *)

Module LoaderFacts.
Import Loader.

(** No thrown value escapes [fetchSubtitles]: the [catch] has no way to
    throw. *)
Lemma fetchSubtitles_returns (w : World) (file : string) (st : State) :
  (fetchSubtitles w file st).1 = inr tt.
Proof.
  unfold fetchSubtitles. destruct (truthy (handle st)) as [h|]; [|reflexivity].
  unfold try_catch, mbind, M_bind, await, throw.
  destruct (loadFont w) as [e|[]]; [reflexivity|].
  destruct (getFileExists w file); simpl; [|reflexivity].
  destruct (fetch w file) as [e|res]; [reflexivity|].
  destruct (ok res); simpl; [|reflexivity].
  destruct (json res) as [e|data]; reflexivity.
Qed.

Lemma fetchSubtitles_fails (w : World) (file : string) (st : State) (h : string) :
  truthy (handle st) = Some h ->
  source_fails w file ->
  fetchSubtitles w file st = (inr tt, degraded st h).
Proof.
  intros Hh Hfail. unfold fetchSubtitles. rewrite Hh.
  unfold try_catch, mbind, M_bind, await, throw, degraded.
  destruct (loadFont w) as [e|[]] eqn:Hfont; [reflexivity|].
  destruct (getFileExists w file) eqn:Hex; simpl; [|reflexivity].
  destruct (fetch w file) as [e|res] eqn:Hfetch; [reflexivity|].
  destruct (ok res) eqn:Hok; simpl; [|reflexivity].
  destruct (json res) as [e|data] eqn:Hjson; [reflexivity|].
  exfalso.
  destruct Hfail as [[e He]|[He|[[e He]|(res' & Hres & Hbad)]]];
    try congruence.
  assert (res' = res) as -> by congruence.
  destruct Hbad as [Hbad|[e Hbad]]; congruence.
Qed.
(** Without a handle nothing is fetched and nothing changes. *)
Lemma fetchSubtitles_no_handle (w : World) (file : string) :
  fetchSubtitles w file initialState = (inr tt, initialState).
Proof. reflexivity. Qed.
End LoaderFacts.

(** C9.  When the subtitle file is missing, the response is not ok, or
    anything in loading, fetching or decoding throws, [fetchSubtitles] sets
    the subtitles to the empty list and resumes rendering; it never lets a
    thrown value out, so the grouper receives a caption list (here the empty
    one, which it groups into no page). *)
Theorem fetchSubtitles_degrades_to_empty
    (w : Loader.World) (subtitlesFile : string) (st : Loader.State)
    (h : string) :
  Loader.truthy (Loader.handle st) = Some h ->
  Loader.source_fails w subtitlesFile ->
  let r := Loader.fetchSubtitles w subtitlesFile st in
  r.1 = inr tt
  /\ Loader.subtitles r.2 = []
  /\ Loader.continued r.2 = Loader.continued st ++ [h]
  /\ CaptionedVideo_pages (Loader.subtitles r.2) = []
  /\ forall w' st', (Loader.fetchSubtitles w' subtitlesFile st').1 = inr tt.
Proof.
  intros Hh Hfail r. subst r.
  rewrite (LoaderFacts.fetchSubtitles_fails w subtitlesFile st h Hh Hfail).
  simpl. repeat split. intros w' st'.
  apply LoaderFacts.fetchSubtitles_returns.
Qed.

Lemma fetchSubtitles_degrades_to_empty_witness :
  let r := Loader.fetchSubtitles noFiles "video.json" loaded in
  r.1 = inr tt
  /\ Loader.subtitles r.2 = []
  /\ Loader.continued r.2 = Loader.continued loaded ++ ["wait video"]
  /\ CaptionedVideo_pages (Loader.subtitles r.2) = []
  /\ forall w' st', (Loader.fetchSubtitles w' "video.json" st').1 = inr tt.
Proof.
  apply (fetchSubtitles_degrades_to_empty noFiles "video.json" loaded
           "wait video").
  - reflexivity.
  - right. left. reflexivity.
Defined.

(** ** Metadata *)



(** ** The name of the subtitles file *)

Module FileNameFacts.
Import FileName.

#[local] Arguments String.append !_ _ / : simpl nomatch.

Lemma append_assoc (s t u : string) : (s +:+ t) +:+ u = s +:+ (t +:+ u).
Proof. induction s as [|c s IH]; simpl; [reflexivity | rewrite IH; reflexivity]. Qed.

Lemma length_append (s t : string) :
  String.length (s +:+ t) = (String.length s + String.length t)%nat.
Proof. induction s as [|c s IH]; simpl; [reflexivity | rewrite IH; reflexivity]. Qed.

Lemma matches_to_end_length (pat : list atom) (s : string) :
  matches_to_end pat s = true -> String.length s = length pat.
Proof.
  revert s. induction pat as [|a pat IH]; intros [|c s] H; simpl in *;
    try discriminate; [reflexivity|].
  apply andb_true_iff in H as [_ H]. rewrite (IH _ H). reflexivity.
Qed.

Lemma matches_to_end_longer (pat : list atom) (s : string) :
  String.length s <> length pat -> matches_to_end pat s = false.
Proof.
  intros Hne. destruct (matches_to_end pat s) eqn:E; [|reflexivity].
  apply matches_to_end_length in E. contradiction.
Qed.

Lemma test_short (pat : list atom) (s : string) :
  (String.length s < length pat)%nat -> test pat s = false.
Proof.
  induction s as [|c s IH]; intros Hlt; simpl in *.
  - rewrite matches_to_end_longer by (simpl; lia). reflexivity.
  - rewrite matches_to_end_longer by (simpl; lia).
    rewrite IH by lia. reflexivity.
Qed.

(** Only one position can match: the one that leaves as many code units as
    the pattern has. *)
Lemma test_exact (pat : list atom) (stem m : string) :
  String.length m = length pat ->
  test pat (stem +:+ m) = matches_to_end pat m.
Proof.
  intros Hlen. induction stem as [|c stem IH]; simpl.
  - destruct m as [|c m]; simpl; [rewrite orb_false_r; reflexivity|].
    rewrite test_short by (simpl in Hlen; lia).
    rewrite orb_false_r. reflexivity.
  - rewrite IH.
    rewrite (matches_to_end_longer pat (String c (stem +:+ m))).
    + reflexivity.
    + simpl. rewrite length_append. lia.
Qed.

Lemma replace_exact (pat : list atom) (repl stem m : string) :
  String.length m = length pat ->
  replace pat repl (stem +:+ m)
  = if matches_to_end pat m then stem +:+ repl else stem +:+ m.
Proof.
  intros Hlen. induction stem as [|c stem IH]; simpl.
  - destruct (matches_to_end pat m) eqn:E.
    + destruct m; simpl in *; rewrite E; reflexivity.
    + destruct m as [|c m]; simpl in *; rewrite E; [reflexivity|].
      f_equal. clear E.
      assert (Hshort : forall t, (String.length t < length pat)%nat ->
                                 replace pat repl t = t).
      { induction t as [|d t IHt]; intros Hlt; simpl in *.
        - rewrite matches_to_end_longer by (simpl; lia). reflexivity.
        - rewrite matches_to_end_longer by (simpl; lia).
          rewrite IHt by lia. reflexivity. }
      apply Hshort. lia.
  - rewrite (matches_to_end_longer pat (String c (stem +:+ m))).
    + rewrite IH. destruct (matches_to_end pat m); reflexivity.
    + simpl. rewrite length_append. lia.
Qed.

Lemma replace_unmatched (pat : list atom) (repl s : string) :
  test pat s = false -> replace pat repl s = s.
Proof.
  induction s as [|c s IH]; simpl; intros H;
    apply orb_false_iff in H as [Hm Ht]; rewrite Hm; [reflexivity|].
  rewrite (IH Ht). reflexivity.
Qed.

(** A string with a match splits into what comes before and the match. *)
Lemma test_true (pat : list atom) (s : string) :
  test pat s = true ->
  exists stem m, s = stem +:+ m /\ matches_to_end pat m = true.
Proof.
  induction s as [|c s IH]; simpl; intros H.
  - rewrite orb_false_r in H. exists "", "". split; [reflexivity | exact H].
  - apply orb_true_iff in H as [H|H].
    + exists "", (String c s). split; [reflexivity | exact H].
    + destruct (IH H) as (stem & m & -> & Hm).
      exists (String c stem), m. split; [reflexivity | exact Hm].
Qed.

Lemma matches_lits (l : list ascii) (s : string) :
  matches_to_end (map lit l) s = true <-> s = String.string_of_list_ascii l.
Proof.
  revert s. induction l as [|x l IH]; intros [|c s]; simpl;
    try (split; intros; discriminate); [tauto|].
  rewrite andb_true_iff, IH. unfold lit. rewrite Ascii.eqb_eq. split.
  - intros [-> ->]. reflexivity.
  - intros [= -> ->]. auto.
Qed.

(** What [/.ext$/] matches: one code unit that is no line terminator, and
    the extension. *)
Lemma matches_pattern (ext m : string) :
  matches_to_end (pattern ext) m = true <->
  exists c, isLineTerminator c = false /\ m = String c ext.
Proof.
  unfold pattern. destruct m as [|c m]; simpl.
  - split; [discriminate | intros (c & _ & [=])].
  - rewrite andb_true_iff, matches_lits, String.string_of_list_ascii_of_string.
    unfold dot. rewrite negb_true_iff. split.
    + intros [Hc ->]. eauto.
    + intros (c' & Hc & [= -> ->]). auto.
Qed.

Lemma pattern_length (ext : string) :
  length (pattern ext) = S (String.length ext).
Proof.
  unfold pattern. simpl. rewrite length_map. f_equal.
  induction ext as [|c ext IH]; simpl; [reflexivity | f_equal; exact IH].
Qed.

Lemma endsWith_append (stem ext : string) :
  endsWith (stem +:+ ext) ext = true.
Proof.
  induction stem as [|c stem IH]; simpl.
  - destruct ext; cbn [String.append endsWith]; rewrite String.eqb_refl;
      reflexivity.
  - rewrite IH. apply orb_true_r.
Qed.

Lemma append_cons (stem : string) (c : ascii) (s : string) :
  stem +:+ String c s = (stem +:+ String c "") +:+ s.
Proof. rewrite append_assoc. reflexivity. Qed.

(** A name that ends in [.json] has no match. *)
Lemma json_unmatched (stem : string) : unmatched (stem +:+ ".json").
Proof.
  unfold unmatched, extensions.
  repeat constructor;
    try (rewrite (append_cons stem "." "json"), test_exact; reflexivity).
  rewrite test_exact; reflexivity.
Qed.

Lemma unmatched_subtitlesFile (s : string) :
  unmatched s -> subtitlesFile s = s.
Proof.
  unfold unmatched, extensions, subtitlesFile. intros H.
  apply Forall_cons_1 in H as [H1 H]. apply Forall_cons_1 in H as [H2 H].
  apply Forall_cons_1 in H as [H3 H]. apply Forall_cons_1 in H as [H4 _].
  rewrite (replace_unmatched _ _ _ H1), (replace_unmatched _ _ _ H2),
    (replace_unmatched _ _ _ H3), (replace_unmatched _ _ _ H4).
  reflexivity.
Qed.

(** One replacement: nothing happens, or a match becomes [.json]. *)
Lemma replace_cases (ext s : string) :
  (test (pattern ext) s = false /\ replace (pattern ext) ".json" s = s)
  \/ (exists stem c,
         isLineTerminator c = false
         /\ s = stem +:+ String c ext
         /\ replace (pattern ext) ".json" s = stem +:+ ".json").
Proof.
  destruct (test (pattern ext) s) eqn:E.
  - right. apply test_true in E as (stem & m & -> & Hm).
    pose proof (matches_to_end_length _ _ Hm) as Hlen.
    pose proof Hm as Hm'. apply matches_pattern in Hm' as (c & Hc & ->).
    exists stem, c. split; [exact Hc|]. split; [reflexivity|].
    rewrite replace_exact by exact Hlen. rewrite Hm. reflexivity.
  - left. split; [reflexivity | apply replace_unmatched; exact E].
Qed.
End FileNameFacts.

(** A name that ends in [.json] is left alone by each replacement. *)
Lemma json_fixed (stem ext : string) :
  ext ∈ FileName.extensions ->
  FileName.replace (FileName.pattern ext) ".json" (stem +:+ ".json")
  = stem +:+ ".json".
Proof.
  intros Hext. apply FileNameFacts.replace_unmatched.
  pose proof (FileNameFacts.json_unmatched stem) as Hun.
  unfold FileName.unmatched in Hun. rewrite Forall_forall in Hun.
  apply Hun. exact Hext.
Qed.

Ltac known_extension := unfold FileName.extensions; repeat constructor.

(** The four replacements on any name. *)
Lemma subtitlesFile_cases (src : string) :
  (FileName.subtitlesFile src = src /\ FileName.unmatched src)
  \/ (exists stem c ext,
         ext ∈ FileName.extensions
         /\ FileName.isLineTerminator c = false
         /\ src = stem +:+ String c ext
         /\ FileName.subtitlesFile src = stem +:+ ".json").
Proof.
  unfold FileName.subtitlesFile.
  destruct (FileNameFacts.replace_cases "mp4" src)
    as [[T1 R1]|(st & c & Hc & E & R1)]; rewrite R1.
  2: { right. exists st, c, "mp4".
       rewrite !json_fixed by known_extension.
       repeat split; [known_extension | exact Hc | exact E]. }
  destruct (FileNameFacts.replace_cases "mkv" src)
    as [[T2 R2]|(st & c & Hc & E & R2)]; rewrite R2.
  2: { right. exists st, c, "mkv".
       rewrite !json_fixed by known_extension.
       repeat split; [known_extension | exact Hc | exact E]. }
  destruct (FileNameFacts.replace_cases "mov" src)
    as [[T3 R3]|(st & c & Hc & E & R3)]; rewrite R3.
  2: { right. exists st, c, "mov".
       rewrite !json_fixed by known_extension.
       repeat split; [known_extension | exact Hc | exact E]. }
  destruct (FileNameFacts.replace_cases "webm" src)
    as [[T4 R4]|(st & c & Hc & E & R4)]; rewrite R4.
  2: { right. exists st, c, "webm".
       repeat split; [known_extension | exact Hc | exact E]. }
  left. split; [reflexivity|].
  unfold FileName.unmatched, FileName.extensions. repeat constructor; assumption.
Qed.

(** X1.  A source name made of a stem, one code unit that is no line
    terminator and one of the extensions mp4, mkv, mov, webm gives the stem
    followed by [.json]; the dot of [stem.mp4] is one such code unit, and
    since the dot of the pattern is not escaped any other one does too. *)
Theorem subtitlesFile_of_video (stem : string) (c : ascii) (ext : string) :
  ext ∈ FileName.extensions ->
  FileName.isLineTerminator c = false ->
  FileName.subtitlesFile (stem +:+ String c ext) = stem +:+ ".json".
Proof.
  intros Hext Hc.
  assert (Hdot : FileName.dot c = true).
  { unfold FileName.dot. rewrite Hc. reflexivity. }
  pose proof (FileNameFacts.json_unmatched stem) as Hun.
  unfold FileName.unmatched, FileName.extensions in Hun.
  apply Forall_cons_1 in Hun as [U1 Hun]. apply Forall_cons_1 in Hun as [U2 Hun].
  apply Forall_cons_1 in Hun as [U3 Hun]. apply Forall_cons_1 in Hun as [U4 _].
  unfold FileName.extensions in Hext.
  repeat (apply elem_of_cons in Hext as [->|Hext]);
    [| | | | apply elem_of_nil in Hext; contradiction];
    unfold FileName.subtitlesFile.
  - rewrite (FileNameFacts.replace_exact _ _ stem (String c "mp4")) by reflexivity.
    simpl FileName.matches_to_end. rewrite Hdot. simpl.
    rewrite (FileNameFacts.replace_unmatched _ _ _ U2),
      (FileNameFacts.replace_unmatched _ _ _ U3),
      (FileNameFacts.replace_unmatched _ _ _ U4). reflexivity.
  - rewrite (FileNameFacts.replace_exact _ _ stem (String c "mkv")) by reflexivity.
    simpl FileName.matches_to_end. rewrite andb_false_r.
    rewrite (FileNameFacts.replace_exact _ _ stem (String c "mkv")) by reflexivity.
    simpl FileName.matches_to_end. rewrite Hdot. simpl.
    rewrite (FileNameFacts.replace_unmatched _ _ _ U3),
      (FileNameFacts.replace_unmatched _ _ _ U4). reflexivity.
  - rewrite (FileNameFacts.replace_exact _ _ stem (String c "mov")) by reflexivity.
    simpl FileName.matches_to_end. rewrite andb_false_r.
    rewrite (FileNameFacts.replace_exact _ _ stem (String c "mov")) by reflexivity.
    simpl FileName.matches_to_end. rewrite andb_false_r.
    rewrite (FileNameFacts.replace_exact _ _ stem (String c "mov")) by reflexivity.
    simpl FileName.matches_to_end. rewrite Hdot. simpl.
    rewrite (FileNameFacts.replace_unmatched _ _ _ U4). reflexivity.
  - rewrite (FileNameFacts.append_cons stem c "webm").
    rewrite (FileNameFacts.replace_exact _ _ _ "webm") by reflexivity.
    simpl FileName.matches_to_end. cbv iota.
    rewrite (FileNameFacts.replace_exact _ _ _ "webm") by reflexivity.
    simpl FileName.matches_to_end. cbv iota.
    rewrite (FileNameFacts.replace_exact _ _ _ "webm") by reflexivity.
    simpl FileName.matches_to_end. cbv iota.
    rewrite <- (FileNameFacts.append_cons stem c "webm").
    rewrite (FileNameFacts.replace_exact _ _ stem (String c "webm")) by reflexivity.
    simpl FileName.matches_to_end. rewrite Hdot. reflexivity.
Qed.

Lemma subtitlesFile_of_video_witness :
  FileName.subtitlesFile "clips/intro.mp4" = "clips/intro.json"
  /\ FileName.subtitlesFile "stamp4" = "st.json".
Proof.
  split.
  - apply (subtitlesFile_of_video "clips/intro" "." "mp4").
    + unfold FileName.extensions. apply elem_of_cons. left. reflexivity.
    + reflexivity.
  - apply (subtitlesFile_of_video "st" "a" "mp4").
    + unfold FileName.extensions. apply elem_of_cons. left. reflexivity.
    + reflexivity.
Defined.

(** X2.  A source name that ends in none of mp4, mkv, mov, webm is its own
    subtitles file name: nothing is replaced (an upper-case extension, or
    any other, is not recognised). *)
Theorem subtitlesFile_other_name (src : string) :
  Forall (fun ext => FileName.endsWith src ext = false) FileName.extensions ->
  FileName.subtitlesFile src = src.
Proof.
  intros Hno. apply FileNameFacts.unmatched_subtitlesFile.
  unfold FileName.unmatched. eapply Forall_impl; [exact Hno|].
  intros ext Hext. simpl in Hext.
  destruct (FileName.test (FileName.pattern ext) src) eqn:E; [|reflexivity].
  apply FileNameFacts.test_true in E as (stem & m & -> & Hm).
  apply FileNameFacts.matches_pattern in Hm as (c & _ & ->).
  rewrite FileNameFacts.append_cons, FileNameFacts.endsWith_append in Hext.
  discriminate.
Qed.

Lemma subtitlesFile_other_name_witness :
  FileName.subtitlesFile "clips/intro.MP4" = "clips/intro.MP4".
Proof.
  apply (subtitlesFile_other_name "clips/intro.MP4").
  unfold FileName.extensions. repeat constructor.
Defined.

(** X3.  The four replacements together change the name at most once: the
    result is the source itself, which then has no match, or the source with
    its last code units (one that is no line terminator, then a known
    extension) replaced by [.json]; either way no pattern matches the
    result. *)
Theorem subtitlesFile_shape (src : string) :
  ((FileName.subtitlesFile src = src /\ FileName.unmatched src)
   \/ (exists stem c ext,
          ext ∈ FileName.extensions
          /\ FileName.isLineTerminator c = false
          /\ src = stem +:+ String c ext
          /\ FileName.subtitlesFile src = stem +:+ ".json"))
  /\ FileName.unmatched (FileName.subtitlesFile src).
Proof.
  destruct (subtitlesFile_cases src)
    as [[Hsame Hun]|(stem & c & ext & Hext & Hc & Hsrc & Hres)].
  - split; [left; split; assumption|]. rewrite Hsame. exact Hun.
  - split.
    + right. exists stem, c, ext. repeat split; assumption.
    + rewrite Hres. apply FileNameFacts.json_unmatched.
Qed.

(** X4.  Computing the subtitles file name is idempotent: the name computed
    from a subtitles file name is that name. *)
Theorem subtitlesFile_idempotent (src : string) :
  FileName.subtitlesFile (FileName.subtitlesFile src)
  = FileName.subtitlesFile src.
Proof.
  destruct (subtitlesFile_cases src)
    as [[-> Hun]|(stem & c & ext & _ & _ & _ & ->)].
  - apply FileNameFacts.unmatched_subtitlesFile. exact Hun.
  - apply FileNameFacts.unmatched_subtitlesFile, FileNameFacts.json_unmatched.
Qed.

(** ** Loading, once more *)

(** X10.  [getFileExists] answers true exactly when one of the static files
    has the given name as its [src], compared as a whole and with case. *)
Theorem getFileExists_iff (w : Loader.World) (file : string) :
  Loader.getFileExists w file = true <->
  exists f, f ∈ Loader.getStaticFiles w /\ Loader.src f = file.
Proof.
  unfold Loader.getFileExists.
  destruct (find _ (Loader.getStaticFiles w)) as [f|] eqn:E.
  - apply find_some in E as [Hin Heq]. apply String.eqb_eq in Heq.
    split; [|reflexivity]. intros _. exists f.
    split; [apply list_elem_of_In; exact Hin | exact Heq].
  - split; [discriminate|]. intros (f & Hin & Heq). exfalso.
    apply list_elem_of_In in Hin.
    pose proof (find_none _ _ E f Hin) as Hf. simpl in Hf.
    apply String.eqb_neq in Hf. contradiction.
Qed.

Lemma fetchSubtitles_loads
    (w : Loader.World) (file : string) (st : Loader.State) (h : string)
    (data : list Caption.t) :
  Loader.truthy (Loader.handle st) = Some h ->
  source_loads w file data ->
  Loader.fetchSubtitles w file st
  = (inr tt, Loader.mkSt data (Loader.handle st) (Loader.continued st ++ [h])).
Proof.
  intros Hh (Hfont & Hex & res & Hres & Hok & Hjson).
  unfold Loader.fetchSubtitles. rewrite Hh.
  unfold Loader.try_catch, mbind, Loader.M_bind, Loader.await, Loader.throw.
  rewrite Hfont, Hex. simpl. rewrite Hres, Hok. simpl. rewrite Hjson.
  reflexivity.
Qed.

Lemma fails_or_loads (w : Loader.World) (file : string) :
  Loader.source_fails w file \/ exists data, source_loads w file data.
Proof.
  unfold Loader.source_fails, source_loads.
  destruct (Loader.loadFont w) as [e|[]] eqn:Hfont; [left; left; eauto|].
  destruct (Loader.getFileExists w file) eqn:Hex; [|left; right; left; reflexivity].
  destruct (Loader.fetch w file) as [e|res] eqn:Hres;
    [left; right; right; left; eauto|].
  destruct (Loader.ok res) eqn:Hok;
    [|left; right; right; right; exists res; auto].
  destruct (Loader.json res) as [e|data] eqn:Hjson.
  - left. right. right. right. exists res. split; [reflexivity|]. right. eauto.
  - right. exists data. repeat split. exists res. auto.
Qed.

(** X11.  With a render handle, a font that loads, a subtitles file that is
    listed, a response that is ok and a body that decodes, [fetchSubtitles]
    stores the decoded captions, whatever was stored before, and resumes
    rendering once. *)
Theorem fetchSubtitles_stores_decoded
    (w : Loader.World) (subtitlesFile : string) (st : Loader.State)
    (h : string) (data : list Caption.t) :
  Loader.truthy (Loader.handle st) = Some h ->
  source_loads w subtitlesFile data ->
  let r := Loader.fetchSubtitles w subtitlesFile st in
  r.1 = inr tt
  /\ Loader.subtitles r.2 = data
  /\ Loader.handle r.2 = Loader.handle st
  /\ Loader.continued r.2 = Loader.continued st ++ [h].
Proof.
  intros Hh Hload r. subst r.
  rewrite (fetchSubtitles_loads w subtitlesFile st h data Hh Hload).
  simpl. auto.
Qed.

Lemma fetchSubtitles_stores_decoded_witness :
  let r := Loader.fetchSubtitles (oneFile [cap 5 "b"]) "video.json" loaded in
  r.1 = inr tt
  /\ Loader.subtitles r.2 = [cap 5 "b"]
  /\ Loader.handle r.2 = Loader.handle loaded
  /\ Loader.continued r.2 = Loader.continued loaded ++ ["wait video"].
Proof.
  apply (fetchSubtitles_stores_decoded (oneFile [cap 5 "b"]) "video.json"
           loaded "wait video" [cap 5 "b"]).
  - reflexivity.
  - split; [reflexivity|]. split; [reflexivity|].
    eexists. split; [reflexivity|]. split; reflexivity.
Defined.

(** X12.  With a render handle, every call of [fetchSubtitles], in every
    world, resumes rendering exactly once with that handle, keeps the handle,
    and leaves as subtitles either the empty list or the decoded captions of
    a source that loaded: nothing of the earlier subtitles remains. *)
Theorem fetchSubtitles_always_resumes
    (w : Loader.World) (subtitlesFile : string) (st : Loader.State)
    (h : string) :
  Loader.truthy (Loader.handle st) = Some h ->
  let r := Loader.fetchSubtitles w subtitlesFile st in
  Loader.continued r.2 = Loader.continued st ++ [h]
  /\ Loader.handle r.2 = Loader.handle st
  /\ (Loader.subtitles r.2 = []
      \/ exists data, source_loads w subtitlesFile data
                      /\ Loader.subtitles r.2 = data).
Proof.
  intros Hh r. subst r.
  destruct (fails_or_loads w subtitlesFile) as [Hfail|[data Hload]].
  - rewrite (LoaderFacts.fetchSubtitles_fails w subtitlesFile st h Hh Hfail).
    simpl. auto.
  - rewrite (fetchSubtitles_loads w subtitlesFile st h data Hh Hload).
    simpl. split; [reflexivity|]. split; [reflexivity|]. right. eauto.
Qed.

Lemma fetchSubtitles_always_resumes_witness :
  let r := Loader.fetchSubtitles noFiles "video.json" loaded in
  Loader.continued r.2 = Loader.continued loaded ++ ["wait video"]
  /\ Loader.handle r.2 = Loader.handle loaded
  /\ (Loader.subtitles r.2 = []
      \/ exists data, source_loads noFiles "video.json" data
                      /\ Loader.subtitles r.2 = data).
Proof.
  apply (fetchSubtitles_always_resumes noFiles "video.json" loaded "wait video").
  reflexivity.
Defined.

(** ** Metadata, once more *)




(** X15.  A longer video never gets fewer frames. *)
Theorem metadata_monotone
    (getVideoMetadata : string -> Loader.Error + Metadata.VideoMetadata)
    (src1 src2 : string) (m1 m2 : Metadata.VideoMetadata) :
  getVideoMetadata src1 = inr m1 ->
  getVideoMetadata src2 = inr m2 ->
  Metadata.durationInSeconds m1 <= Metadata.durationInSeconds m2 ->
  exists c1 c2,
    Metadata.calculateCaptionedVideoMetadata getVideoMetadata src1 = inr c1
    /\ Metadata.calculateCaptionedVideoMetadata getVideoMetadata src2 = inr c2
    /\ (Metadata.durationInFrames c1 <= Metadata.durationInFrames c2)%Z.
Proof.
  intros H1 H2 Hle. unfold Metadata.calculateCaptionedVideoMetadata.
  rewrite H1, H2. eexists. eexists. split; [reflexivity|].
  split; [reflexivity|]. cbn [Metadata.durationInFrames].
  apply Qfloor_resp_le. apply Qmult_le_compat_r; [exact Hle | discriminate].
Qed.

Lemma metadata_monotone_witness :
  exists c1 c2,
    Metadata.calculateCaptionedVideoMetadata probeByName "short.mp4" = inr c1
    /\ Metadata.calculateCaptionedVideoMetadata probeByName "long.mp4" = inr c2
    /\ (Metadata.durationInFrames c1 <= Metadata.durationInFrames c2)%Z.
Proof.
  apply (metadata_monotone probeByName "short.mp4" "long.mp4"
           (Metadata.mkVideoMetadata (1 # 50))
           (Metadata.mkVideoMetadata (25 # 2))).
  - reflexivity.
  - reflexivity.
  - discriminate.
Defined.
